(** * Verification of the MediaDL download form controller (src/src/App.tsx)

    Shallow embedding of the logic of [App]: platform detection over the
    [PLATFORMS] regular expressions, the submit handler [handleDownload]
    (scheme guard, request, response handling), [reset], and the view
    gates of the rendered form.

    Strings are Rocq strings of 8-bit characters, standing for JavaScript
    strings whose code units are all below 256. *)

From Stdlib Require Import String Ascii ZArith List Bool Lia.
Import ListNotations.
Open Scope string_scope.
Open Scope Z_scope.

(* ------------------------------------------------------------------ *)
(** ** Characters *)

Definition code (c : ascii) : Z := Z.of_nat (nat_of_ascii c).

(** JavaScript [WhiteSpace] and [LineTerminator] code points below 256:
    TAB, LF, VT, FF, CR, SPACE and NO-BREAK SPACE. *)
Definition is_js_space (c : ascii) : bool :=
  let n := code c in
  ((9 <=? n) && (n <=? 13)) || (n =? 32) || (n =? 160).

Fixpoint trim_start (s : string) : string :=
  match s with
  | EmptyString => EmptyString
  | String c s' => if is_js_space c then trim_start s' else s
  end.

Fixpoint rev_str (s : string) : string :=
  match s with
  | EmptyString => EmptyString
  | String c s' => rev_str s' ++ String c EmptyString
  end.

(** [String.prototype.trim]. *)
Definition trim (s : string) : string :=
  rev_str (trim_start (rev_str (trim_start s))).

(** ASCII upper-casing; the [Canonicalize] of a non-unicode regular
    expression leaves every code unit of 128 and above unchanged when its
    upper case would be ASCII, so only ASCII letters fold. *)
Definition to_upper (c : ascii) : ascii :=
  let n := nat_of_ascii c in
  if ((97 <=? n) && (n <=? 122))%nat then ascii_of_nat (n - 32) else c.

Fixpoint lower_str (s : string) : string :=
  match s with
  | EmptyString => EmptyString
  | String c s' =>
      let n := nat_of_ascii c in
      String (if ((65 <=? n) && (n <=? 90))%nat then ascii_of_nat (n + 32) else c)
             (lower_str s')
  end.

(* ------------------------------------------------------------------ *)
(** ** Regular expressions used by [PLATFORMS] *)

Inductive regex : Type :=
| RChar (c : ascii)          (* a literal character, [\.] and [\/] included *)
| RSeq (r1 r2 : regex)
| RAlt (r1 r2 : regex)       (* [r1|r2] *)
| ROpt (r : regex)           (* [r?], greedy *)
| RBol.                      (* [^] without the [m] flag *)

Record RegExp : Type := mkRegExp { re_source : regex; re_ignoreCase : bool }.

Definition char_eq (ic : bool) (a b : ascii) : bool :=
  if ic then Ascii.eqb (to_upper a) (to_upper b) else Ascii.eqb a b.

(** Backtracking matcher in continuation style: [pos] is the index of the
    remaining input [s] in the whole string. *)
Fixpoint re_match (ic : bool) (r : regex) (pos : nat) (s : string)
  (k : nat -> string -> bool) : bool :=
  match r with
  | RChar c =>
      match s with
      | EmptyString => false
      | String c' s' => char_eq ic c c' && k (S pos) s'
      end
  | RSeq r1 r2 => re_match ic r1 pos s (fun p s' => re_match ic r2 p s' k)
  | RAlt r1 r2 => re_match ic r1 pos s k || re_match ic r2 pos s k
  | ROpt r1 => re_match ic r1 pos s k || k pos s
  | RBol => Nat.eqb pos 0 && k pos s
  end.

Fixpoint test_from (re : RegExp) (pos : nat) (s : string) : bool :=
  re_match (re_ignoreCase re) (re_source re) pos s (fun _ _ => true)
  || match s with
     | EmptyString => false
     | String _ s' => test_from re (S pos) s'
     end.

(** [RegExp.prototype.test] for a regular expression without the [g] or
    [y] flag: a match starting at some index. *)
Definition test (re : RegExp) (s : string) : bool := test_from re 0 s.

(** A literal string as a sequence of characters (non-empty). *)
Fixpoint lit (s : string) : regex :=
  match s with
  | EmptyString => RBol (* unused: every literal below is non-empty *)
  | String c EmptyString => RChar c
  | String c s' => RSeq (RChar c) (lit s')
  end.

Record Platform : Type := mkPlatform { name : string; pattern : RegExp }.

Definition PLATFORMS : list Platform :=
  [ mkPlatform "YouTube"
      (mkRegExp (RAlt (lit "youtube.com") (lit "youtu.be")) true);
    mkPlatform "Instagram" (mkRegExp (lit "instagram.com") true);
    mkPlatform "TikTok" (mkRegExp (lit "tiktok.com") true);
    mkPlatform "Facebook"
      (mkRegExp (RAlt (lit "facebook.com") (lit "fb.watch")) true);
    (* /^https?:\/\//i *)
    mkPlatform "Generic"
      (mkRegExp (RSeq RBol (RSeq (lit "http") (RSeq (ROpt (RChar "s"))
                                                    (lit "://")))) true) ].

(** [detectPlatform]: [PLATFORMS.find(p => p.pattern.test(url))?.name ?? null]. *)
Definition detectPlatform (url : string) : option string :=
  option_map name (find (fun p => test (pattern p) url) PLATFORMS).

(** The [platform] memo of [App]: [url() ? detectPlatform(url()) : null]. *)
Definition platform (url : string) : option string :=
  match url with
  | EmptyString => None
  | _ => detectPlatform url
  end.

Example detect_youtube : detectPlatform "https://YouTube.com/watch?v=abc" = Some "YouTube".
Proof. reflexivity. Qed.
Example detect_generic : detectPlatform "HTTPS://example.org/x" = Some "Generic".
Proof. reflexivity. Qed.
Example detect_none : detectPlatform "ftp://example.org/x" = None.
Proof. reflexivity. Qed.
Example detect_fb : detectPlatform "see fb.watch/xyz" = Some "Facebook".
Proof. reflexivity. Qed.
Example trim_ex : trim "  ab c	 " = "ab c".
Proof. reflexivity. Qed.

(* ------------------------------------------------------------------ *)
(** ** JavaScript values produced by [JSON.parse] *)

#[local] Set Warnings "-register-all".
Inductive jsval : Type :=
| JUndefined
| JNull
| JBool (b : bool)
| JNum (n : Z)                 (* integral numbers *)
| JStr (s : string)
| JArr (l : list jsval)
| JObj (fields : list (string * jsval)).

(** Thrown values: an [Error] instance (any subclass) with its [message],
    or some other value. *)
Inductive thrown : Type :=
| ErrorObj (ename : string) (message : string)
| NonError (v : jsval).

Inductive exc (A : Type) : Type :=
| Ok (a : A)
| Throw (t : thrown).
Arguments Ok {A} a.
Arguments Throw {A} t.

Definition bind {A B} (m : exc A) (k : A -> exc B) : exc B :=
  match m with Ok a => k a | Throw t => Throw t end.

Notation "x <- m ;; k" := (bind m (fun x => k))
  (at level 61, m at next level, right associativity).

(** [JSON.parse] keeps the last of duplicated keys. *)
Fixpoint lookup_last (k : string) (fs : list (string * jsval)) : option jsval :=
  match fs with
  | [] => None
  | (k', v) :: fs' =>
      match lookup_last k fs' with
      | Some w => Some w
      | None => if String.eqb k k' then Some v else None
      end
  end.

(** Property read [v.k]; the keys the program reads ([detail], [filename],
    [download_url]) are no properties of primitives, arrays or of
    [Object.prototype]. *)
Definition get_prop (v : jsval) (k : string) : exc jsval :=
  match v with
  | JUndefined =>
      Throw (ErrorObj "TypeError" ("Cannot read properties of undefined (reading '" ++ k ++ "')"))
  | JNull =>
      Throw (ErrorObj "TypeError" ("Cannot read properties of null (reading '" ++ k ++ "')"))
  | JObj fs => Ok (match lookup_last k fs with Some w => w | None => JUndefined end)
  | _ => Ok JUndefined
  end.

Definition nullish (v : jsval) : bool :=
  match v with JUndefined | JNull => true | _ => false end.

Definition truthy (v : jsval) : bool :=
  match v with
  | JUndefined | JNull => false
  | JBool b => b
  | JNum n => negb (n =? 0)
  | JStr s => negb (String.eqb s "")
  | JArr _ | JObj _ => true
  end.

Fixpoint digits_of (fuel : nat) (n : N) (acc : string) : string :=
  match fuel with
  | O => acc
  | S f =>
      let d := String (ascii_of_N (48 + N.modulo n 10)) acc in
      if (n <? 10)%N then d else digits_of f (N.div n 10) d
  end.

(** Decimal rendering of an integral [Number]. *)
Definition dec (z : Z) : string :=
  let s := digits_of (S (N.size_nat (Z.abs_N z))) (Z.abs_N z) "" in
  if z <? 0 then "-" ++ s else s.

Definition join_comma (l : list string) : string :=
  match l with
  | [] => ""
  | x :: xs => fold_left (fun acc y => acc ++ "," ++ y) xs x
  end.

Definition has_key (k : string) (fs : list (string * jsval)) : bool :=
  existsb (fun '(k', _) => String.eqb k k') fs.

(** [ToString]; a parsed object with its own [toString] key has no callable
    [toString] and no primitive [valueOf], so the conversion throws. Arrays
    use [join], rendering [null] and [undefined] elements as the empty
    string. *)
Fixpoint js_ToString (v : jsval) : exc string :=
  match v with
  | JUndefined => Ok "undefined"
  | JNull => Ok "null"
  | JBool b => Ok (if b then "true" else "false")
  | JNum n => Ok (dec n)
  | JStr s => Ok s
  | JArr l =>
      let fix elems (l : list jsval) : exc (list string) :=
        match l with
        | [] => Ok []
        | x :: xs =>
            s <- (if nullish x then Ok "" else js_ToString x) ;;
            ss <- elems xs ;;
            Ok (s :: ss)
        end in
      ss <- elems l ;; Ok (join_comma ss)
  | JObj fs =>
      if has_key "toString" fs
      then Throw (ErrorObj "TypeError" "Cannot convert object to primitive value")
      else Ok "[object Object]"
  end.

(* ------------------------------------------------------------------ *)
(** ** Responses of [fetch] *)

Inductive Body : Type :=
| BodyJSON (v : jsval)                 (* the text parses as JSON to [v] *)
| BodyInvalid (syntax_message : string). (* [JSON.parse] raises SyntaxError *)

Record Response : Type := mkResponse { res_status : Z; res_body : Body }.

Definition res_ok (r : Response) : bool := (200 <=? res_status r) && (res_status r <=? 299).

(** [res.json()]. *)
Definition res_json (r : Response) : exc jsval :=
  match res_body r with
  | BodyJSON v => Ok v
  | BodyInvalid m => Throw (ErrorObj "SyntaxError" m)
  end.

Inductive FetchOutcome : Type :=
| Fetched (r : Response)          (* the promise resolves with a response *)
| FetchRejected (t : thrown).     (* network failure: the promise rejects *)

(** A request issued by [fetch(`${API_BASE}/api/download`, ...)] with body
    [JSON.stringify({ url: trimmed })]. *)
Record Request : Type := mkRequest { req_endpoint : string; req_url : string }.

(* ------------------------------------------------------------------ *)
(** ** Session state of [App] *)

Inductive AppStatus : Type := idle | loading | success | error.

Definition AppStatus_eqb (a b : AppStatus) : bool :=
  match a, b with
  | idle, idle | loading, loading | success, success | error, error => true
  | _, _ => false
  end.

(** The four signals [url], [status], [result] ([null] is [JNull]) and
    [errorMsg]. *)
Record AppState : Type := mkAppState {
  url : string;
  status : AppStatus;
  result : jsval;
  errorMsg : string
}.

Definition init : AppState := mkAppState "" idle JNull "".

Definition setUrl (v : string) (s : AppState) : AppState :=
  mkAppState v (status s) (result s) (errorMsg s).
Definition setStatus (v : AppStatus) (s : AppState) : AppState :=
  mkAppState (url s) v (result s) (errorMsg s).
Definition setResult (v : jsval) (s : AppState) : AppState :=
  mkAppState (url s) (status s) v (errorMsg s).
Definition setErrorMsg (v : string) (s : AppState) : AppState :=
  mkAppState (url s) (status s) (result s) v.

(** The [URL] object returned by [new URL(...)]: only [protocol] is read. *)
Record URLRec : Type := mkURL { protocol : string }.

Definition dq : string := String (ascii_of_nat 34) EmptyString.

Definition invalid_url_msg : string :=
  "Invalid URL. Please enter a valid http or https URL.".

Definition scheme_msg (proto : string) : string :=
  "Unsupported URL scheme " ++ dq ++ proto ++ dq ++ ". Only http and https are allowed.".

Definition unknown_error_msg : string := "Unknown error occurred".

(** [VITE_API_BASE?.replace(/\/$/, '') ?? 'http://localhost:8000']. *)
Definition API_BASE_of (env : option string) : string :=
  match env with
  | None => "http://localhost:8000"
  | Some v =>
      match rev_str v with
      | String "/" r => rev_str r
      | _ => v
      end
  end.

Section Controller.

(** [new URL(s)]: [None] when the constructor throws. *)
Variable parse_url : string -> option URLRec.
Variable API_BASE : string.

(** The synchronous part of [handleDownload], up to and including the call
    of [fetch]: the new state and the request issued, if any. *)
Definition submit (s : AppState) : AppState * option Request :=
  let trimmed := trim (url s) in
  match trimmed with
  | EmptyString => (s, None)
  | _ =>
      match parse_url trimmed with
      | None => (setStatus error (setErrorMsg invalid_url_msg s), None)
      | Some parsed =>
          if negb (String.eqb (protocol parsed) "http:")
             && negb (String.eqb (protocol parsed) "https:")
          then (setStatus error (setErrorMsg (scheme_msg (protocol parsed)) s), None)
          else (setErrorMsg "" (setResult JNull (setStatus loading s)),
                Some (mkRequest (API_BASE ++ "/api/download") trimmed))
      end
  end.

End Controller.

(** The body of the [try] block after [fetch] was called: the value of
    [data] stored on success, or the exception reaching [catch]. *)
Definition await_download (o : FetchOutcome) : exc jsval :=
  match o with
  | FetchRejected t => Throw t
  | Fetched res =>
      if negb (res_ok res) then
        (* await res.json().catch(() => ({})) *)
        let data := match res_json res with Ok v => v | Throw _ => JObj [] end in
        (* throw new Error(data.detail ?? `Server error ${res.status}`) *)
        detail <- get_prop data "detail" ;;
        let arg := if nullish detail
                   then JStr ("Server error " ++ dec (res_status res))
                   else detail in
        m <- js_ToString arg ;;
        Throw (ErrorObj "Error" m)
      else res_json res
  end.

(** The continuation of [handleDownload] once [fetch] settles. *)
Definition on_response (s : AppState) (o : FetchOutcome) : AppState :=
  match await_download o with
  | Ok data => setStatus success (setResult data s)
  | Throw err =>
      let msg := match err with
                 | ErrorObj _ m => m
                 | NonError _ => unknown_error_msg
                 end in
      setStatus error (setErrorMsg msg s)
  end.

(** [reset]. *)
Definition reset (s : AppState) : AppState :=
  setErrorMsg "" (setResult JNull (setStatus idle (setUrl "" s))).

(* ------------------------------------------------------------------ *)
(** ** Rendering *)

(** [isLoading()]: disables the URL input and the submit button. *)
Definition isLoading (s : AppState) : bool := AppStatus_eqb (status s) loading.

(** The success card is shown when [status() === 'success' && result()]. *)
Definition success_shown (s : AppState) : bool :=
  AppStatus_eqb (status s) success && truthy (result s).

Definition error_shown (s : AppState) : bool := AppStatus_eqb (status s) error.

(** The save link of the success card: [href] is
    [`${API_BASE}${res().download_url}`] and [download] is
    [res().filename]. *)
Record Link : Type := mkLink { href : string; download : string }.

Definition success_link (API_BASE : string) (s : AppState) : option (exc Link) :=
  if success_shown s then
    Some (du <- get_prop (result s) "download_url" ;;
          h <- js_ToString du ;;
          fn <- get_prop (result s) "filename" ;;
          d <- js_ToString fn ;;
          Ok (mkLink (API_BASE ++ h) d))
  else None.

(** A reset button is rendered in the success card and in the error card. *)
Definition reset_enabled (s : AppState) : bool := success_shown s || error_shown s.

(* ------------------------------------------------------------------ *)
(** ** The page as an event system *)

(** The session state and the requests in flight, oldest first. *)
Record Sys : Type := mkSys { form : AppState; inflight : list Request }.

Definition sys_init : Sys := mkSys init [].

Definition opt_list {A} (o : option A) : list A :=
  match o with Some a => [a] | None => [] end.

Inductive event : Type :=
| EvInput (v : string)          (* onInput of the URL field *)
| EvSubmit                      (* submission of the form *)
| EvResponse (o : FetchOutcome) (* the oldest request settles *)
| EvReset.                      (* a reset button is clicked *)

Section Events.

Variable parse_url : string -> option URLRec.
Variable API_BASE : string.

(** Events the rendered page accepts in a state: the URL field and the
    submit button are disabled while loading, so neither typing nor
    submission reaches the handlers then. *)
Inductive step : Sys -> event -> Sys -> Prop :=
| StepInput : forall s q v,
    isLoading s = false ->
    step (mkSys s q) (EvInput v) (mkSys (setUrl v s) q)
| StepSubmit : forall s q s' r,
    isLoading s = false ->
    submit parse_url API_BASE s = (s', r) ->
    step (mkSys s q) EvSubmit (mkSys s' (q ++ opt_list r))
| StepResponse : forall s req q o,
    step (mkSys s (req :: q)) (EvResponse o) (mkSys (on_response s o) q)
| StepReset : forall s q,
    reset_enabled s = true ->
    step (mkSys s q) EvReset (mkSys (reset s) q).

Inductive reachable : Sys -> Prop :=
| reach_init : reachable sys_init
| reach_step : forall x e y, reachable x -> step x e y -> reachable y.

End Events.

(* ------------------------------------------------------------------ *)
(** ** A concrete [new URL(...)] for evaluation

    The theorems below hold for every URL parser; concrete runs use this
    rendering of the scheme states of the WHATWG URL parser without a base
    URL: an ASCII letter followed by letters, digits, [+], [-] or [.] up
    to [:], lower-cased; special schemes other than [file] need a
    non-empty host. *)

Definition is_alpha (c : ascii) : bool :=
  let n := nat_of_ascii c in
  ((65 <=? n) && (n <=? 90))%nat || ((97 <=? n) && (n <=? 122))%nat.

Definition is_scheme_char (c : ascii) : bool :=
  let n := nat_of_ascii c in
  is_alpha c || ((48 <=? n) && (n <=? 57))%nat
  || Ascii.eqb c "+" || Ascii.eqb c "-" || Ascii.eqb c ".".

Fixpoint scheme_tail (s : string) : option (string * string) :=
  match s with
  | EmptyString => None
  | String c s' =>
      if Ascii.eqb c ":" then Some (EmptyString, s')
      else if is_scheme_char c
           then option_map (fun '(a, b) => (String c a, b)) (scheme_tail s')
           else None
  end.

Fixpoint strip_slashes (s : string) : string :=
  match s with
  | String c s' =>
      if Ascii.eqb c "/" || Ascii.eqb c (ascii_of_nat 92) then strip_slashes s' else s
  | EmptyString => EmptyString
  end.

Definition has_host (rest : string) : bool :=
  match strip_slashes rest with
  | EmptyString => false
  | String c _ => negb (Ascii.eqb c "?" || Ascii.eqb c "#")
  end.

Definition is_special (proto : string) : bool :=
  existsb (String.eqb proto) ["http:"; "https:"; "ftp:"; "ws:"; "wss:"].

Definition parse_url_model (s : string) : option URLRec :=
  match s with
  | EmptyString => None
  | String c s' =>
      if is_alpha c then
        match scheme_tail s' with
        | None => None
        | Some (sch, rest) =>
            let proto := lower_str (String c sch) ++ ":" in
            if is_special proto && negb (has_host rest) then None
            else Some (mkURL proto)
        end
      else None
  end.

Example parse_https : parse_url_model "https://youtube.com/watch?v=abc" = Some (mkURL "https:").
Proof. reflexivity. Qed.
Example parse_js : parse_url_model "javascript:alert(1)" = Some (mkURL "javascript:").
Proof. reflexivity. Qed.
Example parse_bad : parse_url_model "youtube.com/watch" = None.
Proof. reflexivity. Qed.
Example api_base_strip : API_BASE_of (Some "https://api.example.com/") = "https://api.example.com".
Proof. reflexivity. Qed.

(** The success payload of the spec's example. *)
Definition video_payload : jsval :=
  JObj [("status", JStr "ok"); ("message", JStr "done");
        ("filename", JStr "video.mp4"); ("download_url", JStr "/files/video.mp4")].

(* ------------------------------------------------------------------ *)
(** ** Invariants of the reachable states *)

Section Reachable.

Variable parse_url : string -> option URLRec.
Variable API_BASE : string.

(** Either nothing is in flight and the form is not loading, or exactly one
    request is in flight, the form is loading and both [result] and
    [errorMsg] are cleared; outside [error], [errorMsg] is empty. *)
Definition sys_inv (y : Sys) : Prop :=
  ((inflight y = [] /\ status (form y) <> loading)
   \/ (exists r, inflight y = [r] /\ status (form y) = loading
                 /\ result (form y) = JNull /\ errorMsg (form y) = ""))
  /\ (status (form y) <> error -> errorMsg (form y) = "").

Lemma isLoading_false (s : AppState) :
  isLoading s = false <-> status s <> loading.
Proof.
  unfold isLoading; destruct (status s); simpl; split; congruence.
Qed.

Lemma reset_enabled_status (s : AppState) :
  reset_enabled s = true -> status s = success \/ status s = error.
Proof.
  unfold reset_enabled, success_shown, error_shown.
  destruct (status s); simpl; auto; discriminate.
Qed.

Lemma submit_cases (s s' : AppState) (r : option Request) :
  submit parse_url API_BASE s = (s', r) ->
  (s' = s /\ r = None)
  \/ (status s' = error /\ r = None /\ url s' = url s)
  \/ (exists req, r = Some req /\ status s' = loading
                  /\ result s' = JNull /\ errorMsg s' = "").
Proof.
  unfold submit.
  destruct (trim (url s)) as [|c t] eqn:Ht.
  - intros H; inversion H; subst; auto.
  - destruct (parse_url (String c t)) as [p|].
    + destruct (negb (protocol p =? "http:")%string && negb (protocol p =? "https:")%string);
        intros H; inversion H; subst; simpl; eauto 10.
    + intros H; inversion H; subst; simpl; auto.
Qed.

Lemma on_response_cases (s : AppState) (o : FetchOutcome) :
  (status (on_response s o) = success /\ errorMsg (on_response s o) = errorMsg s)
  \/ status (on_response s o) = error.
Proof.
  unfold on_response; destruct (await_download o); simpl; auto.
Qed.

Lemma sys_inv_init : sys_inv sys_init.
Proof.
  split; [left; split; [reflexivity | discriminate] | reflexivity].
Qed.

Lemma sys_inv_step (x y : Sys) (e : event) :
  sys_inv x -> step parse_url API_BASE x e y -> sys_inv y.
Proof.
  unfold sys_inv; intros [Hq He] Hs; inversion Hs as [s q v Hl | s q s' r Hl Hsub | s req q o | s q Hr];
    subst; simpl in *.
  - apply isLoading_false in Hl.
    destruct Hq as [[Hq1 _] | [r [_ [Hq2 _]]]]; [|contradiction].
    split; [left; split; assumption | exact He].
  - apply isLoading_false in Hl.
    destruct Hq as [[Hq1 _] | [r' [_ [Hq2 _]]]]; [|contradiction]; subst q.
    destruct (submit_cases _ _ _ Hsub) as [[-> ->] | [[Hst [-> _]] | [req [-> [Hst [Hres Herr]]]]]]; cbn.
    + split; [left; split; [reflexivity | assumption] | exact He].
    + split; [left; split; [reflexivity | congruence] | intros Hne; contradiction].
    + split; [right; exists req; auto | intros _; exact Herr].
  - destruct Hq as [[Hq1 _] | [r [Hq1 [Hl [Hres Herr]]]]]; [discriminate|].
    inversion Hq1; subst q.
    destruct (on_response_cases s o) as [[Hst Hm] | Hst]; cbn.
    + split; [left; split; [reflexivity | congruence] | intros _; congruence].
    + split; [left; split; [reflexivity | congruence] | congruence].
  - destruct (reset_enabled_status s Hr) as [Hst | Hst];
      (destruct Hq as [[Hq1 _] | [r [_ [Hl _]]]]; [|congruence]); subst q;
      (split; [left; split; [reflexivity | discriminate] | reflexivity]).
Qed.

Lemma reachable_inv (y : Sys) : reachable parse_url API_BASE y -> sys_inv y.
Proof.
  induction 1; [apply sys_inv_init | eapply sys_inv_step; eauto].
Qed.

End Reachable.

(* ------------------------------------------------------------------ *)
(** ** String lemmas *)

Lemma str_app_assoc (a b c : string) : a ++ (b ++ c) = (a ++ b) ++ c.
Proof. induction a as [|x a IH]; simpl; [reflexivity | now rewrite IH]. Qed.

Lemma str_app_nil_r (a : string) : a ++ "" = a.
Proof. induction a as [|x a IH]; simpl; [reflexivity | now rewrite IH]. Qed.

(* ------------------------------------------------------------------ *)
(** ** Executable runs of the page *)

Section Runs.

Variable parse_url : string -> option URLRec.
Variable API_BASE : string.

Definition step_fn (x : Sys) (e : event) : option Sys :=
  match e with
  | EvInput v =>
      if isLoading (form x) then None
      else Some (mkSys (setUrl v (form x)) (inflight x))
  | EvSubmit =>
      if isLoading (form x) then None
      else let '(s', r) := submit parse_url API_BASE (form x) in
           Some (mkSys s' (inflight x ++ opt_list r))
  | EvResponse o =>
      match inflight x with
      | [] => None
      | _ :: q => Some (mkSys (on_response (form x) o) q)
      end
  | EvReset =>
      if reset_enabled (form x) then Some (mkSys (reset (form x)) (inflight x)) else None
  end.

Fixpoint run (x : Sys) (es : list event) : option Sys :=
  match es with
  | [] => Some x
  | e :: es' =>
      match step_fn x e with
      | Some y => run y es'
      | None => None
      end
  end.

Lemma step_fn_sound (x y : Sys) (e : event) :
  step_fn x e = Some y -> step parse_url API_BASE x e y.
Proof.
  destruct x as [s q]; destruct e as [v | | o |]; simpl.
  - destruct (isLoading s) eqn:Hl; intros H; inversion H; subst.
    now constructor.
  - destruct (isLoading s) eqn:Hl; [discriminate|].
    destruct (submit parse_url API_BASE s) as [s' r] eqn:Hs; intros H; inversion H; subst.
    now econstructor.
  - destruct q as [|req q]; intros H; inversion H; subst; constructor.
  - destruct (reset_enabled s) eqn:Hr; intros H; inversion H; subst.
    now constructor.
Qed.

Lemma run_reachable (es : list event) : forall x y,
  reachable parse_url API_BASE x -> run x es = Some y -> reachable parse_url API_BASE y.
Proof.
  induction es as [|e es IH]; simpl; intros x y Hx H.
  - now inversion H; subst.
  - destruct (step_fn x e) as [x'|] eqn:He; [|discriminate].
    apply (IH x'); [econstructor; [exact Hx | apply step_fn_sound; exact He] | exact H].
Qed.

End Runs.

Definition local_api : string := API_BASE_of None.

Definition video_url : string := "https://youtube.com/watch?v=abc".

Definition ok_200 : FetchOutcome := Fetched (mkResponse 200 (BodyJSON video_payload)).

(** Success of the spec's example, then a rejected [ftp://x] submission. *)
Definition trace_stale : list event :=
  [EvInput video_url; EvSubmit; EvResponse ok_200; EvInput "ftp://x"; EvSubmit].

Example run_trace_stale :
  run parse_url_model local_api sys_init trace_stale
  = Some (mkSys (mkAppState "ftp://x" error video_payload (scheme_msg "ftp:")) []).
Proof. reflexivity. Qed.

(** The handler itself has no [loading] guard: only the disabled button
    keeps a second submission away. *)
Example submit_while_loading_unguarded :
  snd (submit parse_url_model local_api (mkAppState video_url loading JNull ""))
  = Some (mkRequest "http://localhost:8000/api/download" video_url).
Proof. reflexivity. Qed.

(* ------------------------------------------------------------------ *)
(** ** Claims *)

(** C1 (counterexample): after a successful download, submitting [ftp://x]
    reaches a state whose [errorMsg] is non-empty while [result] still
    holds the earlier payload. *)
Lemma C1_result_and_error_coexist :
  reachable parse_url_model local_api
    (mkSys (mkAppState "ftp://x" error video_payload (scheme_msg "ftp:")) [])
  /\ scheme_msg "ftp:" <> "" /\ video_payload <> JNull.
Proof.
  split; [|split; discriminate].
  apply (run_reachable _ _ trace_stale sys_init); [constructor | reflexivity].
Qed.

(** C1 (amended): in every reachable state whose status is not [error],
    [errorMsg] is empty; in [loading] both [result] and [errorMsg] are
    cleared; every submission entering [loading] clears both; and no
    success link is rendered in [error]. *)
Theorem C1_error_msg_only_in_error (parse_url : string -> option URLRec)
  (API_BASE : string) (y : Sys) :
  reachable parse_url API_BASE y ->
  (status (form y) <> error -> errorMsg (form y) = "")
  /\ (status (form y) = loading -> result (form y) = JNull /\ errorMsg (form y) = "")
  /\ (forall s s' req, submit parse_url API_BASE s = (s', Some req) ->
        status s' = loading /\ result s' = JNull /\ errorMsg s' = "")
  /\ (status (form y) = error -> success_link API_BASE (form y) = None).
Proof.
  intros Hy; destruct (reachable_inv _ _ y Hy) as [Hq He].
  split; [exact He|]. split; [|split].
  - intros Hl; destruct Hq as [[_ Hn] | [r [_ [_ [Hr Hm]]]]]; [contradiction | auto].
  - intros s s' req Hs.
    destruct (submit_cases _ _ _ _ _ Hs)
      as [[_ Hn] | [[_ [Hn _]] | [req' [_ [Hl [Hr Hm]]]]]]; [discriminate | discriminate | auto].
  - intros Hst; unfold success_link, success_shown; rewrite Hst; reflexivity.
Qed.

Lemma C1_error_msg_only_in_error_witness :
  reachable parse_url_model local_api
    (mkSys (mkAppState video_url success video_payload "") [])
  /\ ((success <> error -> "" = "")
      /\ (success = loading -> video_payload = JNull /\ "" = "")
      /\ (forall s s' req, submit parse_url_model local_api s = (s', Some req) ->
            status s' = loading /\ result s' = JNull /\ errorMsg s' = "")
      /\ (success = error ->
            success_link local_api (mkAppState video_url success video_payload "") = None)).
Proof.
  assert (H : reachable parse_url_model local_api
                (mkSys (mkAppState video_url success video_payload "") [])).
  { apply (run_reachable _ _ [EvInput video_url; EvSubmit; EvResponse ok_200] sys_init);
      [constructor | reflexivity]. }
  split; [exact H|].
  exact (C1_error_msg_only_in_error parse_url_model local_api _ H).
Defined.

(** C3: a non-empty trimmed input that [new URL] rejects sets the invalid-URL
    message and status [error]; one that parses with a protocol other than
    [http:] and [https:] sets a message containing that protocol and status
    [error]; in both cases no request is issued. *)
Theorem C3_scheme_guard_before_fetch (parse_url : string -> option URLRec)
  (API_BASE : string) (s : AppState) :
  trim (url s) <> "" ->
  (parse_url (trim (url s)) = None ->
     submit parse_url API_BASE s = (setStatus error (setErrorMsg invalid_url_msg s), None))
  /\ (forall p, parse_url (trim (url s)) = Some p ->
        protocol p <> "http:" -> protocol p <> "https:" ->
        submit parse_url API_BASE s
          = (setStatus error (setErrorMsg (scheme_msg (protocol p)) s), None)
        /\ exists pre post, scheme_msg (protocol p) = pre ++ protocol p ++ post).
Proof.
  intros Hne; unfold submit.
  destruct (trim (url s)) as [|c t]; [contradiction|].
  split.
  - intros Hp; rewrite Hp; reflexivity.
  - intros p Hp Hh Hs; rewrite Hp.
    apply String.eqb_neq in Hh, Hs; rewrite Hh, Hs; simpl.
    split; [reflexivity|].
    exists ("Unsupported URL scheme " ++ dq), (dq ++ ". Only http and https are allowed.").
    unfold scheme_msg; rewrite !str_app_assoc; reflexivity.
Qed.

Lemma C3_scheme_guard_before_fetch_witness :
  trim (url (mkAppState "ftp://x" idle JNull "")) <> ""
  /\ (parse_url_model (trim (url (mkAppState "ftp://x" idle JNull ""))) = None ->
        submit parse_url_model local_api (mkAppState "ftp://x" idle JNull "")
        = (setStatus error (setErrorMsg invalid_url_msg (mkAppState "ftp://x" idle JNull "")), None))
  /\ (forall p, parse_url_model (trim (url (mkAppState "ftp://x" idle JNull ""))) = Some p ->
        protocol p <> "http:" -> protocol p <> "https:" ->
        submit parse_url_model local_api (mkAppState "ftp://x" idle JNull "")
          = (setStatus error (setErrorMsg (scheme_msg (protocol p))
                                (mkAppState "ftp://x" idle JNull "")), None)
        /\ exists pre post, scheme_msg (protocol p) = pre ++ protocol p ++ post).
Proof.
  assert (H : trim (url (mkAppState "ftp://x" idle JNull "")) <> "") by discriminate.
  split; [exact H|].
  exact (C3_scheme_guard_before_fetch parse_url_model local_api _ H).
Defined.

Example C3_ftp_run :
  submit parse_url_model local_api (mkAppState "ftp://x" idle JNull "")
  = (mkAppState "ftp://x" error JNull (scheme_msg "ftp:"), None).
Proof. reflexivity. Qed.

(** The error state of a rejected [not a url] submission, with the field
    then cleared to blanks. *)
Definition blank_after_error : AppState := mkAppState "   " error JNull invalid_url_msg.

(** C4 (counterexample): from a reachable [error] state, submitting a blank
    input leaves the state as it is, so the status stays [error]. *)
Lemma C4_blank_submit_keeps_error :
  reachable parse_url_model local_api (mkSys blank_after_error [])
  /\ step_fn parse_url_model local_api (mkSys blank_after_error []) EvSubmit
     = Some (mkSys blank_after_error [])
  /\ status blank_after_error = error.
Proof.
  split; [|split; reflexivity].
  apply (run_reachable _ _ [EvInput "not a url"; EvSubmit; EvInput "   "] sys_init);
    [constructor | reflexivity].
Qed.

(** C4 (amended): submitting an input that is empty after trimming changes
    nothing (status, url, result and message stay as they were) and issues
    no request. *)
Theorem C4_blank_submit_noop (parse_url : string -> option URLRec)
  (API_BASE : string) (s : AppState) :
  trim (url s) = "" -> submit parse_url API_BASE s = (s, None).
Proof.
  intros H; unfold submit; rewrite H; reflexivity.
Qed.

Lemma C4_blank_submit_noop_witness :
  trim (url (mkAppState " 	 " success video_payload "")) = ""
  /\ submit parse_url_model local_api (mkAppState " 	 " success video_payload "")
     = (mkAppState " 	 " success video_payload "", None).
Proof.
  assert (H : trim (url (mkAppState " 	 " success video_payload "")) = "") by reflexivity.
  split; [exact H|].
  exact (C4_blank_submit_noop parse_url_model local_api _ H).
Defined.

(** C8: in every reachable state at most one request is in flight, a
    request is in flight only while loading, and while loading no
    submission step exists (the button and the field are disabled). *)
Theorem C8_single_request_in_flight (parse_url : string -> option URLRec)
  (API_BASE : string) (y : Sys) :
  reachable parse_url API_BASE y ->
  (length (inflight y) <= 1)%nat
  /\ (inflight y <> [] -> isLoading (form y) = true)
  /\ (isLoading (form y) = true -> forall y', ~ step parse_url API_BASE y EvSubmit y').
Proof.
  intros Hy; destruct (reachable_inv _ _ y Hy) as [Hq _].
  split; [|split].
  - destruct Hq as [[-> _] | [r [-> _]]]; simpl; lia.
  - intros Hne; destruct Hq as [[Hq _] | [r [_ [Hl _]]]]; [contradiction|].
    unfold isLoading; rewrite Hl; reflexivity.
  - intros Hl y' Hs; inversion Hs; subst; simpl in Hl; congruence.
Qed.

Lemma C8_single_request_in_flight_witness :
  reachable parse_url_model local_api
    (mkSys (mkAppState video_url loading JNull "")
           [mkRequest "http://localhost:8000/api/download" video_url])
  /\ ((1 <= 1)%nat
      /\ ([mkRequest "http://localhost:8000/api/download" video_url] <> [] ->
            isLoading (mkAppState video_url loading JNull "") = true)
      /\ (isLoading (mkAppState video_url loading JNull "") = true ->
            forall y', ~ step parse_url_model local_api
                         (mkSys (mkAppState video_url loading JNull "")
                                [mkRequest "http://localhost:8000/api/download" video_url])
                         EvSubmit y')).
Proof.
  assert (H : reachable parse_url_model local_api
    (mkSys (mkAppState video_url loading JNull "")
           [mkRequest "http://localhost:8000/api/download" video_url])).
  { apply (run_reachable _ _ [EvInput video_url; EvSubmit] sys_init);
      [constructor | reflexivity]. }
  split; [exact H|].
  exact (C8_single_request_in_flight parse_url_model local_api _ H).
Defined.

(** C9: [reset] sets status [idle], clears [url] and [errorMsg] and sets
    [result] to [null], from any state; a reset control is rendered in
    every [error] state and in every [success] state showing a result. *)
Theorem C9_reset_clears (s : AppState) :
  status (reset s) = idle /\ url (reset s) = "" /\ result (reset s) = JNull
  /\ errorMsg (reset s) = ""
  /\ (status s = error \/ success_shown s = true -> reset_enabled s = true).
Proof.
  repeat split.
  intros [H | H]; unfold reset_enabled, error_shown; [rewrite H | rewrite H]; simpl;
    [apply orb_true_r | reflexivity].
Qed.

(** The state while the request of the spec's example is in flight. *)
Definition loading_state : AppState := mkAppState video_url loading JNull "".

Example dec_500 : dec 500 = "500".
Proof. reflexivity. Qed.
Example dec_neg : dec (-12) = "-12".
Proof. reflexivity. Qed.

(** C2 (counterexample): a network failure (fetch rejects with a
    TypeError) and a 2xx body that is not JSON (res.json() rejects with a
    SyntaxError) both store the thrown error's own message, not the
    generic fallback. *)
Lemma C2_thrown_message_not_generic :
  status (on_response loading_state (FetchRejected (ErrorObj "TypeError" "Failed to fetch")))
    = error
  /\ errorMsg (on_response loading_state (FetchRejected (ErrorObj "TypeError" "Failed to fetch")))
    = "Failed to fetch"
  /\ errorMsg (on_response loading_state
                 (Fetched (mkResponse 200 (BodyInvalid "Unexpected token < in JSON at position 0"))))
    = "Unexpected token < in JSON at position 0"
  /\ "Failed to fetch" <> unknown_error_msg
  /\ "Unexpected token < in JSON at position 0" <> unknown_error_msg.
Proof. repeat split; discriminate. Qed.

(** C2 (amended): a rejected [fetch] and a 2xx response whose body fails
    to parse both lead to status [error] with the message of the thrown
    value when it is an [Error], and to the generic "Unknown error
    occurred" only for a thrown value that is not an [Error]. *)
Theorem C2_failure_message_of_thrown (s : AppState) :
  (forall t, on_response s (FetchRejected t)
             = setStatus error (setErrorMsg (match t with
                                             | ErrorObj _ m => m
                                             | NonError _ => unknown_error_msg
                                             end) s))
  /\ (forall r m, res_ok r = true -> res_body r = BodyInvalid m ->
        on_response s (Fetched r) = setStatus error (setErrorMsg m s)).
Proof.
  split.
  - intros t; destruct t; reflexivity.
  - intros r m Hok Hb; unfold on_response, await_download.
    rewrite Hok; simpl; unfold res_json; rewrite Hb; reflexivity.
Qed.

Example C2_non_error_rejection :
  errorMsg (on_response loading_state (FetchRejected (NonError (JStr "boom"))))
  = unknown_error_msg.
Proof. reflexivity. Qed.

(** C6 (counterexample): a 2xx response whose body is the JSON [null]
    gives status [success] but no download link is rendered. *)
Lemma C6_null_payload_no_link :
  status (on_response loading_state (Fetched (mkResponse 200 (BodyJSON JNull)))) = success
  /\ result (on_response loading_state (Fetched (mkResponse 200 (BodyJSON JNull)))) = JNull
  /\ success_link local_api
       (on_response loading_state (Fetched (mkResponse 200 (BodyJSON JNull)))) = None.
Proof. repeat split. Qed.

Example empty_object_payload_link :
  success_link local_api (on_response loading_state (Fetched (mkResponse 200 (BodyJSON (JObj [])))))
  = Some (Ok (mkLink "http://localhost:8000undefined" "undefined")).
Proof. reflexivity. Qed.

(** C6 (amended): submitting a trimmed input that parses with protocol
    [http:] or [https:] enters [loading] and issues one request to
    [API_BASE/api/download] carrying the trimmed input; a 2xx response whose
    body parses as JSON, to any value [v] ([null] and [{}] included), then
    gives [success] and stores [v] verbatim as the result; when [v] is an
    object whose [filename] and [download_url] are strings, the rendered link
    is [API_BASE ++ download_url] with [filename] as save name. *)
Theorem C6_success_link (parse_url : string -> option URLRec) (API_BASE : string)
  (s : AppState) (p : URLRec) (r : Response) (v : jsval) :
  trim (url s) <> "" ->
  parse_url (trim (url s)) = Some p ->
  (protocol p = "http:" \/ protocol p = "https:") ->
  res_ok r = true ->
  res_body r = BodyJSON v ->
  exists s1,
    submit parse_url API_BASE s
      = (s1, Some (mkRequest (API_BASE ++ "/api/download") (trim (url s))))
    /\ status s1 = loading
    /\ status (on_response s1 (Fetched r)) = success
    /\ result (on_response s1 (Fetched r)) = v
    /\ (forall fs f d, v = JObj fs ->
          lookup_last "filename" fs = Some (JStr f) ->
          lookup_last "download_url" fs = Some (JStr d) ->
          success_link API_BASE (on_response s1 (Fetched r))
          = Some (Ok (mkLink (API_BASE ++ d) f))).
Proof.
  intros Hne Hp Hproto Hok Hb.
  unfold submit.
  destruct (trim (url s)) as [|c t]; [contradiction|].
  rewrite Hp.
  replace (negb (protocol p =? "http:")%string && negb (protocol p =? "https:")%string)
    with false
    by (destruct Hproto as [-> | ->]; reflexivity).
  eexists; split; [reflexivity|].
  unfold on_response, await_download; rewrite Hok; simpl.
  unfold res_json; rewrite Hb; simpl.
  split; [reflexivity|]. split; [reflexivity|]. split; [reflexivity|].
  intros fs f d -> Hf Hd.
  unfold success_link, success_shown; simpl.
  rewrite Hd, Hf; reflexivity.
Qed.

Lemma C6_success_link_witness :
  exists s1,
    submit parse_url_model local_api (setUrl video_url init)
      = (s1, Some (mkRequest (local_api ++ "/api/download") (trim video_url)))
    /\ status s1 = loading
    /\ status (on_response s1 ok_200) = success
    /\ result (on_response s1 ok_200) = video_payload
    /\ (forall fs f d, video_payload = JObj fs ->
          lookup_last "filename" fs = Some (JStr f) ->
          lookup_last "download_url" fs = Some (JStr d) ->
          success_link local_api (on_response s1 ok_200)
          = Some (Ok (mkLink (local_api ++ d) f))).
Proof.
  apply (C6_success_link parse_url_model local_api (setUrl video_url init)
           (mkURL "https:") (mkResponse 200 (BodyJSON video_payload)) video_payload);
    first [discriminate | reflexivity | right; reflexivity].
Defined.

Example C6_spec_example_link :
  success_link local_api
    (on_response (fst (submit parse_url_model local_api (setUrl video_url init))) ok_200)
  = Some (Ok (mkLink "http://localhost:8000/files/video.mp4" "video.mp4")).
Proof. reflexivity. Qed.



Lemma not_ok_throws (r : Response) :
  res_ok r = false -> exists t, await_download (Fetched r) = Throw t.
Proof.
  intros Hok; unfold await_download; rewrite Hok; simpl.
  destruct (get_prop _ "detail") as [detail|t]; simpl; [|eauto].
  destruct (js_ToString _) as [m|t]; simpl; eauto.
Qed.




Example C7_spec_examples :
  errorMsg (on_response loading_state
              (Fetched (mkResponse 422 (BodyJSON (JObj [("detail", JStr "unsupported URL")])))))
  = "unsupported URL"
  /\ errorMsg (on_response loading_state (Fetched (mkResponse 500 (BodyInvalid "bad"))))
     = "Server error 500".
Proof. split; reflexivity. Qed.

Example C7_converted_details :
  errorMsg (on_response loading_state
              (Fetched (mkResponse 400 (BodyJSON (JObj [("detail", JNum 42)])))))
  = "42"
  /\ errorMsg (on_response loading_state
                 (Fetched (mkResponse 400 (BodyJSON
                   (JObj [("detail", JObj [("toString", JStr "x")])])))))
     = "Cannot convert object to primitive value".
Proof. split; reflexivity. Qed.

(** A non-2xx body that is the JSON [null] makes [data.detail] itself
    throw, and the TypeError's message is stored. *)
Example null_error_body_message :
  errorMsg (on_response loading_state (Fetched (mkResponse 500 (BodyJSON JNull))))
  = "Cannot read properties of null (reading 'detail')".
Proof. reflexivity. Qed.

(* ------------------------------------------------------------------ *)
(** ** Matching literal patterns *)

Fixpoint upper_str (s : string) : string :=
  match s with
  | EmptyString => EmptyString
  | String c s' => String (to_upper c) (upper_str s')
  end.

(** [s] contains [sig] in some letter case. *)
Definition contains_ci (sig s : string) : Prop :=
  exists pre w post, s = pre ++ w ++ post /\ upper_str w = upper_str sig.

(** Strips a prefix equal to [p] up to case. *)
Fixpoint ci_prefix (ic : bool) (p s : string) : option string :=
  match p with
  | EmptyString => Some s
  | String c p' =>
      match s with
      | EmptyString => None
      | String c' s' => if char_eq ic c c' then ci_prefix ic p' s' else None
      end
  end.

Lemma re_match_lit (ic : bool) (sig : string) : forall pos s k,
  sig <> "" ->
  re_match ic (lit sig) pos s k
  = match ci_prefix ic sig s with
    | Some rest => k (pos + String.length sig)%nat rest
    | None => false
    end.
Proof.
  induction sig as [|c sig IH]; intros pos s k Hne; [contradiction|].
  destruct sig as [|c2 sig'].
  - destruct s as [|c' s']; [reflexivity|]; cbn [lit re_match ci_prefix].
    destruct (char_eq ic c c'); [|reflexivity].
    simpl; rewrite Nat.add_1_r; reflexivity.
  - change (lit (String c (String c2 sig'))) with (RSeq (RChar c) (lit (String c2 sig'))).
    destruct s as [|c' s']; [reflexivity|].
    change (re_match ic (RSeq (RChar c) (lit (String c2 sig'))) pos (String c' s') k)
      with (char_eq ic c c' && re_match ic (lit (String c2 sig')) (S pos) s' k).
    change (ci_prefix ic (String c (String c2 sig')) (String c' s'))
      with (if char_eq ic c c' then ci_prefix ic (String c2 sig') s' else None).
    rewrite (IH (S pos) s' k) by discriminate.
    destruct (char_eq ic c c'); [|reflexivity]; rewrite andb_true_l.
    destruct (ci_prefix ic (String c2 sig') s'); [|reflexivity].
    f_equal; simpl; lia.
Qed.

Lemma ci_prefix_sound (p : string) : forall s rest,
  ci_prefix true p s = Some rest -> exists w, s = w ++ rest /\ upper_str w = upper_str p.
Proof.
  induction p as [|c p IH]; intros s rest H.
  - inversion H; subst; exists ""; split; reflexivity.
  - destruct s as [|c' s']; simpl in H; [discriminate|].
    destruct (Ascii.eqb (to_upper c) (to_upper c')) eqn:Hc; [|discriminate].
    apply IH in H as [w [-> Hw]].
    exists (String c' w); split; [reflexivity|].
    apply Ascii.eqb_eq in Hc.
    simpl; rewrite Hw, Hc; reflexivity.
Qed.

Lemma ci_prefix_complete (p : string) : forall w rest,
  upper_str w = upper_str p -> ci_prefix true p (w ++ rest) = Some rest.
Proof.
  induction p as [|c p IH]; intros w rest Hw.
  - destruct w; [reflexivity | discriminate].
  - destruct w as [|c' w']; [discriminate|].
    simpl in Hw; inversion Hw as [[Hc Hw']].
    simpl; unfold char_eq; rewrite Hc, Ascii.eqb_refl; apply IH; exact Hw'.
Qed.

Lemma str_app_eq_nil (a b : string) : a ++ b = "" -> a = "" /\ b = "".
Proof. destruct a; simpl; [auto | discriminate]. Qed.

Lemma upper_str_nil (w : string) : upper_str w = "" -> w = "".
Proof. destruct w; [reflexivity | discriminate]. Qed.

Lemma test_from_lit (sig : string) : sig <> "" -> forall s pos,
  test_from (mkRegExp (lit sig) true) pos s = true <-> contains_ci sig s.
Proof.
  intros Hne; induction s as [|c s IH]; intros pos.
  - simpl; rewrite re_match_lit by exact Hne.
    destruct sig as [|c0 sig]; [contradiction|]; simpl.
    split; [discriminate|].
    intros [pre [w [post [Hs Hw]]]].
    apply eq_sym, str_app_eq_nil in Hs as [_ Hs]; apply str_app_eq_nil in Hs as [-> _].
    discriminate.
  - cbn [test_from re_source re_ignoreCase]; rewrite re_match_lit by exact Hne.
    split.
    + intros H; apply orb_true_iff in H as [H | H].
      * destruct (ci_prefix true sig (String c s)) as [rest|] eqn:Hp; [|discriminate].
        apply ci_prefix_sound in Hp as [w [Hs Hw]].
        exists "", w, rest; split; assumption.
      * apply IH in H as [pre [w [post [Hs Hw]]]].
        exists (String c pre), w, post; simpl; rewrite Hs; split; [reflexivity | exact Hw].
    + intros [pre [w [post [Hs Hw]]]]; apply orb_true_iff.
      destruct pre as [|c' pre].
      * left; simpl in Hs; rewrite Hs, (ci_prefix_complete sig w post Hw); reflexivity.
      * right; simpl in Hs; inversion Hs; subst.
        apply (IH (S pos)); exists pre, w, post; split; [reflexivity | exact Hw].
Qed.

Lemma test_from_alt (a b : regex) (ic : bool) : forall s pos,
  test_from (mkRegExp (RAlt a b) ic) pos s
  = test_from (mkRegExp a ic) pos s || test_from (mkRegExp b ic) pos s.
Proof.
  induction s as [|c s IH]; intros pos; cbn [test_from re_source re_ignoreCase re_match].
  - destruct (re_match ic a pos "" _), (re_match ic b pos "" _); reflexivity.
  - rewrite IH.
    destruct (re_match ic a pos _ _), (re_match ic b pos _ _),
             (test_from _ (S pos) s), (test_from _ (S pos) s); reflexivity.
Qed.

Lemma test_one (g s : string) : g <> "" ->
  test (mkRegExp (lit g) true) s = true <-> exists g', In g' [g] /\ contains_ci g' s.
Proof.
  intros Hg; unfold test; rewrite (test_from_lit g Hg).
  split; [intros H; exists g; simpl; auto | intros [g' [[<- | []] H]]; exact H].
Qed.

Lemma test_two (g1 g2 s : string) : g1 <> "" -> g2 <> "" ->
  test (mkRegExp (RAlt (lit g1) (lit g2)) true) s = true
  <-> exists g', In g' [g1; g2] /\ contains_ci g' s.
Proof.
  intros H1 H2; unfold test; rewrite test_from_alt, orb_true_iff,
    (test_from_lit g1 H1), (test_from_lit g2 H2).
  split.
  - intros [H | H]; [exists g1 | exists g2]; simpl; auto.
  - intros [g' [[<- | [<- | []]] H]]; auto.
Qed.

Lemma find_first {A} (f : A -> bool) (l : list A) (x : A) :
  find f l = Some x
  <-> exists pre post, l = (pre ++ x :: post)%list
                       /\ forallb (fun y => negb (f y)) pre = true /\ f x = true.
Proof.
  split.
  - induction l as [|a l IH]; simpl; [discriminate|].
    destruct (f a) eqn:Ha.
    + intros H; inversion H; subst; exists [], l; auto.
    + intros H; destruct (IH H) as [pre [post [-> [Hpre Hx]]]].
      exists (a :: pre), post; simpl; rewrite Ha, Hpre; auto.
  - intros [pre [post [-> [Hpre Hx]]]].
    induction pre as [|a pre IH]; simpl in *; [rewrite Hx; reflexivity|].
    apply andb_true_iff in Hpre as [Ha Hpre]; apply negb_true_iff in Ha.
    rewrite Ha; apply IH; exact Hpre.
Qed.

(** The platform names and signatures the detection is meant to follow,
    in list order (the [Generic] catch-all apart). *)
Definition SIGNATURES : list (string * list string) :=
  [("YouTube", ["youtube.com"; "youtu.be"]); ("Instagram", ["instagram.com"]);
   ("TikTok", ["tiktok.com"]); ("Facebook", ["facebook.com"; "fb.watch"])].

Definition Generic_platform : Platform := last PLATFORMS (mkPlatform "" (mkRegExp RBol true)).

Lemma PLATFORMS_split :
  PLATFORMS = (removelast PLATFORMS ++ [Generic_platform])%list.
Proof. reflexivity. Qed.

Lemma platforms_signatures (s : string) :
  Forall2 (fun p ns => name p = fst ns
                       /\ (test (pattern p) s = true
                           <-> exists g, In g (snd ns) /\ contains_ci g s))
          (removelast PLATFORMS) SIGNATURES.
Proof.
  repeat constructor;
    first [ apply test_two; discriminate | apply test_one; discriminate
          | cbn [test pattern]; intros H; first [apply test_two in H | apply test_one in H];
            first [exact H | discriminate] ].
Qed.

Lemma generic_matches_http (rest : string) :
  test (pattern Generic_platform) ("http://" ++ rest) = true
  /\ test (pattern Generic_platform) ("https://" ++ rest) = true.
Proof. split; reflexivity. Qed.

Lemma detect_some_of_generic (s : string) :
  test (pattern Generic_platform) s = true -> detectPlatform s <> None.
Proof.
  intros Hg; unfold detectPlatform.
  destruct (find (fun p => test (pattern p) s) PLATFORMS) eqn:Hf; [discriminate|].
  exfalso.
  assert (Hin : In Generic_platform PLATFORMS)
    by (rewrite PLATFORMS_split; apply in_or_app; right; left; reflexivity).
  pose proof (find_none _ _ Hf _ Hin) as H; cbv beta in H; congruence.
Qed.

(** C5: the signature list is YouTube, Instagram, TikTok, Facebook,
    Generic in this order; detection returns the name of the first entry
    whose pattern matches and nothing when none does; the [platform] memo
    agrees with [detectPlatform] on every non-empty input; every string
    beginning with [http://] or [https://] matches the Generic entry and so
    gets a classification; the empty input gets none. *)
Theorem C5_first_match_detection :
  map name PLATFORMS = ["YouTube"; "Instagram"; "TikTok"; "Facebook"; "Generic"]
  /\ (forall s n, detectPlatform s = Some n <->
        exists pre p post, PLATFORMS = (pre ++ p :: post)%list
          /\ forallb (fun q => negb (test (pattern q) s)) pre = true
          /\ test (pattern p) s = true /\ name p = n)
  /\ (forall s, s <> "" -> platform s = detectPlatform s)
  /\ (forall rest, test (pattern Generic_platform) ("http://" ++ rest) = true
                   /\ test (pattern Generic_platform) ("https://" ++ rest) = true
                   /\ detectPlatform ("http://" ++ rest) <> None
                   /\ detectPlatform ("https://" ++ rest) <> None)
  /\ platform "" = None /\ detectPlatform "" = None.
Proof.
  split; [reflexivity|]. split; [|split; [|split; [|split; reflexivity]]].
  - intros s n; unfold detectPlatform; split.
    + destruct (find (fun p => test (pattern p) s) PLATFORMS) as [p|] eqn:Hf;
        simpl; [|discriminate].
      intros H; inversion H; subst.
      apply find_first in Hf as [pre [post [Hl [Hpre Hp]]]].
      exists pre, p, post; auto.
    + intros [pre [p [post [Hl [Hpre [Hp Hn]]]]]].
      assert (Hf : find (fun p => test (pattern p) s) PLATFORMS = Some p)
        by (apply find_first; exists pre, post; auto).
      rewrite Hf; simpl; congruence.
  - intros s Hs; destruct s; [contradiction | reflexivity].
  - intros rest; destruct (generic_matches_http rest) as [G1 G2].
    repeat split; try assumption; apply detect_some_of_generic; assumption.
Qed.

Lemma forallb_not_earlier (s : string) :
  forall ps pre,
  Forall2 (fun p ns => name p = fst ns
                       /\ (test (pattern p) s = true
                           <-> exists g, In g (snd ns) /\ contains_ci g s)) ps pre ->
  (forall n' sigs' g, In (n', sigs') pre -> In g sigs' -> ~ contains_ci g s) ->
  forallb (fun q => negb (test (pattern q) s)) ps = true.
Proof.
  intros ps pre HF; induction HF as [|p [n' sigs'] ps pre [_ Hiff] _ IH]; intros Hno;
    [reflexivity|].
  simpl; apply andb_true_iff; split.
  - apply negb_true_iff, not_true_is_false; intros Ht.
    apply Hiff in Ht as [g [Hg Hc]].
    exact (Hno n' sigs' g (or_introl eq_refl) Hg Hc).
  - apply IH; intros n'' sigs'' g Hin; exact (Hno n'' sigs'' g (or_intror Hin)).
Qed.

(** C10 (counterexample): a URL of Instagram mentioning [youtube.com] in
    its query is classified as YouTube. *)
Lemma C10_two_signatures_first_wins :
  "https://instagram.com/p/x?ref=youtube.com"
    = "https://" ++ "instagram.com" ++ "/p/x?ref=youtube.com"
  /\ detectPlatform "https://instagram.com/p/x?ref=youtube.com" = Some "YouTube".
Proof. split; reflexivity. Qed.

(** C10 (amended): detection is case-insensitive substring matching that
    needs no URL and no scheme: a string containing, in any letter case,
    a signature of a platform and no signature of a platform listed before
    it is classified as that platform. *)
Theorem C10_signature_detection (s : string) (pre : list (string * list string))
  (n : string) (sigs : list string) (post : list (string * list string)) :
  SIGNATURES = (pre ++ (n, sigs) :: post)%list ->
  (exists g, In g sigs /\ contains_ci g s) ->
  (forall n' sigs' g, In (n', sigs') pre -> In g sigs' -> ~ contains_ci g s) ->
  detectPlatform s = Some n.
Proof.
  intros Hsig Hhit Hno.
  pose proof (platforms_signatures s) as HF; rewrite Hsig in HF.
  apply Forall2_app_inv_r in HF as [ps1 [ps2 [HF1 [HF2 Hps]]]].
  inversion HF2 as [|p [n0 sigs0] ps2' post' [Hn Hiff] HFpost]; subst.
  unfold detectPlatform.
  assert (Hf : find (fun p => test (pattern p) s) PLATFORMS = Some p).
  { apply find_first.
    exists ps1, (ps2' ++ [Generic_platform])%list.
    split; [rewrite PLATFORMS_split, Hps, <- app_assoc; reflexivity|].
    split; [exact (forallb_not_earlier s ps1 pre HF1 Hno)|].
    apply Hiff; exact Hhit. }
  rewrite Hf; simpl; rewrite Hn; reflexivity.
Qed.

Lemma C10_signature_detection_witness :
  SIGNATURES = ([] ++ ("YouTube", ["youtube.com"; "youtu.be"]) :: skipn 1 SIGNATURES)%list
  /\ (exists g, In g ["youtube.com"; "youtu.be"] /\ contains_ci g "see YOUTU.BE/abc")
  /\ (forall (n' : string) (sigs' : list string) (g : string),
        In (n', sigs') (@nil (string * list string)) -> In g sigs' ->
        ~ contains_ci g "see YOUTU.BE/abc")
  /\ parse_url_model "see YOUTU.BE/abc" = None
  /\ detectPlatform "see YOUTU.BE/abc" = Some "YouTube".
Proof.
  assert (H1 : SIGNATURES
               = ([] ++ ("YouTube", ["youtube.com"; "youtu.be"]) :: skipn 1 SIGNATURES)%list)
    by reflexivity.
  assert (H2 : exists g, In g ["youtube.com"; "youtu.be"] /\ contains_ci g "see YOUTU.BE/abc").
  { exists "youtu.be"; split; [simpl; auto|].
    exists "see ", "YOUTU.BE", "/abc"; split; reflexivity. }
  assert (H3 : forall (n' : string) (sigs' : list string) (g : string),
                 In (n', sigs') (@nil (string * list string)) -> In g sigs' ->
                 ~ contains_ci g "see YOUTU.BE/abc") by (intros ? ? ? []).
  split; [exact H1|]. split; [exact H2|]. split; [exact H3|]. split; [reflexivity|].
  exact (C10_signature_detection "see YOUTU.BE/abc" [] "YouTube" _ _ H1 H2 H3).
Defined.

(* ------------------------------------------------------------------ *)
(** ** Theme *)

(** The [isDark] signal, whether the root element carries the [light]
    class, and the value stored under the [theme] key. *)
Record Theme : Type := mkTheme { isDark : bool; light_class : bool; stored : option string }.

(** The state before [onMount]: the signal starts at [true]; the class list
    and the storage are whatever the page finds. *)
Definition theme_start (light0 : bool) (stored0 : option string) : Theme :=
  mkTheme true light0 stored0.

(** [onMount]: [saved ? saved === 'dark' : true], then
    [classList.toggle('light', !dark)]. *)
Definition onMount (t : Theme) : Theme :=
  let dark := match stored t with
              | Some saved => if String.eqb saved "" then true else String.eqb saved "dark"
              | None => true
              end in
  mkTheme dark (negb dark) (stored t).

(** [toggleTheme]. *)
Definition toggleTheme (t : Theme) : Theme :=
  let next := negb (isDark t) in
  mkTheme next (negb next) (Some (if next then "dark" else "light")).

Definition theme_after (light0 : bool) (stored0 : option string) (n : nat) : Theme :=
  Nat.iter n toggleTheme (onMount (theme_start light0 stored0)).

Lemma theme_after_light_class (light0 : bool) (stored0 : option string) (n : nat) :
  light_class (theme_after light0 stored0 n) = negb (isDark (theme_after light0 stored0 n)).
Proof.
  destruct n as [|n]; unfold theme_after; simpl.
  - reflexivity.
  - reflexivity.
Qed.

Lemma theme_after_twice (light0 : bool) (stored0 : option string) (n : nat) :
  isDark (theme_after light0 stored0 (S (S n))) = isDark (theme_after light0 stored0 n).
Proof. unfold theme_after; simpl; apply negb_involutive. Qed.

(** X2: after mounting and any number of toggles the [light] class is
    present exactly when the theme is not dark; after at least one toggle
    the storage holds ["dark"] or ["light"] matching the theme; and two
    toggles give back the theme and class they started from. *)
Theorem theme_toggle_invariants (light0 : bool) (stored0 : option string) (n : nat) :
  light_class (theme_after light0 stored0 n) = negb (isDark (theme_after light0 stored0 n))
  /\ stored (theme_after light0 stored0 (S n))
     = Some (if isDark (theme_after light0 stored0 (S n)) then "dark" else "light")
  /\ isDark (theme_after light0 stored0 (S (S n))) = isDark (theme_after light0 stored0 n)
  /\ light_class (theme_after light0 stored0 (S (S n)))
     = light_class (theme_after light0 stored0 n).
Proof.
  split; [apply theme_after_light_class|].
  split; [unfold theme_after; reflexivity|].
  split; [apply theme_after_twice|].
  rewrite !theme_after_light_class, theme_after_twice; reflexivity.
Qed.

(** X1: the theme survives a reload: whatever the theme and class the page
    started with, after mounting and any number of toggles, mounting the page
    again over the value left in storage gives back the same theme and the
    same [light] class. *)
Theorem theme_survives_reload (light0 light1 : bool) (stored0 : option string) (n : nat) :
  isDark (onMount (theme_start light1 (stored (theme_after light0 stored0 n))))
    = isDark (theme_after light0 stored0 n)
  /\ light_class (onMount (theme_start light1 (stored (theme_after light0 stored0 n))))
     = light_class (theme_after light0 stored0 n).
Proof.
  destruct n as [|n]; [split; reflexivity|].
  unfold theme_after; simpl.
  destruct (isDark (Nat.iter n toggleTheme (onMount (theme_start light0 stored0))));
    split; reflexivity.
Qed.

Example theme_blue_is_light :
  isDark (theme_after false (Some "blue") 0) = false
  /\ stored (theme_after false (Some "blue") 2) = Some "light".
Proof. split; reflexivity. Qed.

(* ------------------------------------------------------------------ *)
(** ** Further properties of the page *)

Section PageFacts.

Variable parse_url : string -> option URLRec.
Variable API_BASE : string.

Definition request_ok (req : Request) : Prop :=
  req_endpoint req = API_BASE ++ "/api/download"
  /\ req_url req <> ""
  /\ trim (req_url req) = req_url req
  /\ exists p, parse_url (req_url req) = Some p
               /\ (protocol p = "http:" \/ protocol p = "https:").

Lemma trim_start_idem (s : string) : trim_start (trim_start s) = trim_start s.
Proof.
  induction s as [|c s IH]; simpl; [reflexivity|].
  destruct (is_js_space c) eqn:Hc; [exact IH | simpl; rewrite Hc; reflexivity].
Qed.

Lemma rev_str_app (a b : string) : rev_str (a ++ b) = rev_str b ++ rev_str a.
Proof.
  induction a as [|c a IH]; simpl; [rewrite str_app_nil_r; reflexivity|].
  rewrite IH, str_app_assoc; reflexivity.
Qed.

Lemma rev_str_involutive (s : string) : rev_str (rev_str s) = s.
Proof.
  induction s as [|c s IH]; simpl; [reflexivity|].
  rewrite rev_str_app, IH; reflexivity.
Qed.

Definition starts_nonspace (s : string) : Prop :=
  match s with EmptyString => True | String c _ => is_js_space c = false end.

Lemma trim_start_starts (s : string) : starts_nonspace (trim_start s).
Proof.
  induction s as [|c s IH]; simpl; [exact I|].
  destruct (is_js_space c) eqn:Hc; [exact IH | exact Hc].
Qed.

Lemma trim_start_id (s : string) : starts_nonspace s -> trim_start s = s.
Proof. destruct s as [|c s]; simpl; [auto | intros ->; reflexivity]. Qed.

Lemma trim_start_suffix (s : string) : exists sp, s = sp ++ trim_start s.
Proof.
  induction s as [|c s [sp IH]]; simpl; [exists ""; reflexivity|].
  destruct (is_js_space c); [exists (String c sp); simpl; rewrite <- IH; reflexivity|].
  exists ""; reflexivity.
Qed.

(** [trim] is idempotent: the request carries a string with nothing left
    to trim. *)
Lemma trim_idem (s : string) : trim (trim s) = trim s.
Proof.
  unfold trim.
  set (u := trim_start s).
  assert (Hu : starts_nonspace u) by apply trim_start_starts.
  set (v := trim_start (rev_str u)).
  assert (Hv : starts_nonspace v) by apply trim_start_starts.
  destruct (trim_start_suffix (rev_str u)) as [sp Hsp]; fold v in Hsp.
  assert (Hpre : u = rev_str v ++ rev_str sp)
    by (rewrite <- rev_str_app, <- Hsp, rev_str_involutive; reflexivity).
  assert (Hr : starts_nonspace (rev_str v)).
  { destruct (rev_str v) as [|c w] eqn:E; [exact I|].
    rewrite Hpre in Hu; simpl in Hu; exact Hu. }
  rewrite (trim_start_id _ Hr), rev_str_involutive, (trim_start_id _ Hv); reflexivity.
Qed.

Lemma submit_request (s s' : AppState) (req : Request) :
  submit parse_url API_BASE s = (s', Some req) ->
  req = mkRequest (API_BASE ++ "/api/download") (trim (url s))
  /\ trim (url s) <> ""
  /\ exists p, parse_url (trim (url s)) = Some p
               /\ (protocol p = "http:" \/ protocol p = "https:").
Proof.
  unfold submit.
  destruct (trim (url s)) as [|c t] eqn:Ht; [discriminate|].
  destruct (parse_url (String c t)) as [p|] eqn:Hp; [|discriminate].
  destruct (String.eqb (protocol p) "http:") eqn:H1;
    destruct (String.eqb (protocol p) "https:") eqn:H2; simpl; try discriminate;
    intros H; inversion H; subst;
    (split; [reflexivity | split; [discriminate | exists p; split; [reflexivity|]]]).
  - left; apply String.eqb_eq; exact H1.
  - left; apply String.eqb_eq; exact H1.
  - right; apply String.eqb_eq; exact H2.
Qed.

(** X3: every request in flight in a reachable state goes to
    [API_BASE/api/download] and carries a non-empty, already trimmed
    string that the URL parser accepts with protocol [http:] or [https:]:
    the page never sends a [javascript:], [data:] or [ftp:] URL. *)
Theorem requests_only_http (y : Sys) :
  reachable parse_url API_BASE y -> forall req, In req (inflight y) -> request_ok req.
Proof.
  induction 1 as [|x e y Hx IH Hs]; [intros req []|].
  inversion Hs as [s q v Hl | s q s' r Hl Hsub | s req0 q o | s q Hr]; subst;
    simpl in *; intros req Hin.
  - exact (IH req Hin).
  - apply in_app_or in Hin as [Hin | Hin]; [exact (IH req Hin)|].
    destruct r as [req'|]; simpl in Hin; [|contradiction].
    destruct Hin as [<- | []].
    destruct (submit_request _ _ _ Hsub) as [-> [Hne [p Hp]]].
    unfold request_ok; simpl.
    split; [reflexivity|]. split; [exact Hne|]. split; [apply trim_idem|].
    exists p; exact Hp.
  - apply IH; right; exact Hin.
  - exact (IH req Hin).
Qed.

(** X4: in a reachable state a reset brings the whole page back to its
    initial state: empty field, [idle], no result, no message and no
    request in flight. *)
Theorem reset_restores_initial (y y' : Sys) :
  reachable parse_url API_BASE y -> step parse_url API_BASE y EvReset y' -> y' = sys_init.
Proof.
  intros Hy Hs; destruct (reachable_inv _ _ y Hy) as [Hq _].
  inversion Hs as [| | |s q Hr]; subst; simpl in Hq.
  destruct (reset_enabled_status s Hr) as [Hst | Hst];
    (destruct Hq as [[-> _] | [r [_ [Hl _]]]]; [reflexivity | congruence]).
Qed.

(** X5: no reachable state is stuck: either nothing is in flight, the page
    is not loading and the field accepts input, or the form is
    loading with exactly one request in flight, and whatever the outcome
    of that request its arrival leaves [loading] for [success] or
    [error]. *)
Theorem page_progress (y : Sys) :
  reachable parse_url API_BASE y ->
  (inflight y = [] /\ isLoading (form y) = false
   /\ (forall v, step parse_url API_BASE y (EvInput v) (mkSys (setUrl v (form y)) [])))
  \/ (exists req, inflight y = [req] /\ isLoading (form y) = true
      /\ forall o, step parse_url API_BASE y (EvResponse o) (mkSys (on_response (form y) o) [])
                   /\ (status (on_response (form y) o) = success
                       \/ status (on_response (form y) o) = error)).
Proof.
  intros Hy; destruct (reachable_inv _ _ y Hy) as [Hq _].
  destruct y as [s q]; simpl in *.
  destruct Hq as [[-> Hl] | [req [-> [Hl _]]]].
  - left; apply isLoading_false in Hl.
    split; [reflexivity|]. split; [exact Hl|].
    intros v; constructor; exact Hl.
  - right; exists req. split; [reflexivity|]. split; [unfold isLoading; rewrite Hl; reflexivity|].
    intros o; split; [constructor|].
    destruct (on_response_cases s o) as [[H _] | H]; auto.
Qed.

(** X7: submissions and responses never change the text of the URL field
    (the untrimmed input stays there after an error or a success); only
    typing and reset do. *)
Theorem url_changed_only_by_input_or_reset (x y : Sys) (e : event) :
  step parse_url API_BASE x e y ->
  (forall v, e <> EvInput v) -> e <> EvReset -> url (form y) = url (form x).
Proof.
  intros Hs Hi Hr; inversion Hs as [s q v Hl | s q s' r Hl Hsub | s req q o | s q Hre];
    subst; simpl.
  - exfalso; exact (Hi v eq_refl).
  - destruct (submit_cases _ _ _ _ _ Hsub) as [[-> _] | [[_ [_ Hu]] | [req [-> _]]]];
      [reflexivity | exact Hu |].
    unfold submit in Hsub.
    destruct (trim (url s)) as [|c t]; [inversion Hsub; reflexivity|].
    destruct (parse_url (String c t)) as [p|]; [|discriminate].
    destruct (negb _ && negb _); inversion Hsub; reflexivity.
  - unfold on_response; destruct (await_download o); reflexivity.
  - exfalso; exact (Hr eq_refl).
Qed.

End PageFacts.

(** X6: a settled request leads to [success] exactly when the server
    answered with a 2xx status and a body that parses as JSON; the parsed
    value, whatever it is ([null] included), is then stored as the result,
    and the field and the message are left as they were. *)
Theorem success_iff_2xx_json (s : AppState) (o : FetchOutcome) :
  status (on_response s o) = success
  <-> exists r v, o = Fetched r /\ res_ok r = true /\ res_body r = BodyJSON v
                  /\ on_response s o = setStatus success (setResult v s).
Proof.
  split.
  - intros H; destruct o as [r|t]; [|unfold on_response in H; simpl in H; discriminate].
    destruct (res_ok r) eqn:Hok.
    + destruct (res_body r) as [v|m] eqn:Hb.
      * exists r, v; split; [reflexivity|]; split; [exact Hok|]; split; [exact Hb|].
        unfold on_response, await_download; rewrite Hok; simpl.
        unfold res_json; rewrite Hb; reflexivity.
      * exfalso; unfold on_response, await_download in H; rewrite Hok in H; simpl in H.
        unfold res_json in H; rewrite Hb in H; discriminate.
    + exfalso; destruct (not_ok_throws r Hok) as [t Ht].
      unfold on_response in H; rewrite Ht in H; discriminate.
  - intros [r [v [-> [_ [_ ->]]]]]; reflexivity.
Qed.

Definition loading_sys : Sys :=
  mkSys (mkAppState video_url loading JNull "")
        [mkRequest "http://localhost:8000/api/download" video_url].

Lemma loading_sys_reachable : reachable parse_url_model local_api loading_sys.
Proof.
  apply (run_reachable _ _ [EvInput video_url; EvSubmit] sys_init); [constructor | reflexivity].
Qed.

Definition error_sys : Sys :=
  mkSys (mkAppState "not a url" error JNull invalid_url_msg) [].

Lemma error_sys_reachable : reachable parse_url_model local_api error_sys.
Proof.
  apply (run_reachable _ _ [EvInput "not a url"; EvSubmit] sys_init); [constructor | reflexivity].
Qed.

Lemma requests_only_http_witness :
  reachable parse_url_model local_api loading_sys
  /\ In (mkRequest "http://localhost:8000/api/download" video_url) (inflight loading_sys)
  /\ request_ok parse_url_model local_api
       (mkRequest "http://localhost:8000/api/download" video_url).
Proof.
  assert (Hin : In (mkRequest "http://localhost:8000/api/download" video_url)
                   (inflight loading_sys)) by (left; reflexivity).
  split; [exact loading_sys_reachable|]. split; [exact Hin|].
  exact (requests_only_http parse_url_model local_api loading_sys loading_sys_reachable _ Hin).
Defined.

Lemma reset_restores_initial_witness :
  reachable parse_url_model local_api error_sys
  /\ step parse_url_model local_api error_sys EvReset (mkSys (reset (form error_sys)) [])
  /\ mkSys (reset (form error_sys)) [] = sys_init.
Proof.
  assert (Hs : step parse_url_model local_api error_sys EvReset
                 (mkSys (reset (form error_sys)) [])) by (constructor; reflexivity).
  split; [exact error_sys_reachable|]. split; [exact Hs|].
  exact (reset_restores_initial parse_url_model local_api _ _ error_sys_reachable Hs).
Defined.

Lemma page_progress_witness :
  reachable parse_url_model local_api loading_sys
  /\ ((inflight loading_sys = [] /\ isLoading (form loading_sys) = false
       /\ (forall v, step parse_url_model local_api loading_sys (EvInput v)
                       (mkSys (setUrl v (form loading_sys)) [])))
      \/ (exists req, inflight loading_sys = [req] /\ isLoading (form loading_sys) = true
          /\ forall o, step parse_url_model local_api loading_sys (EvResponse o)
                         (mkSys (on_response (form loading_sys) o) [])
                       /\ (status (on_response (form loading_sys) o) = success
                           \/ status (on_response (form loading_sys) o) = error))).
Proof.
  split; [exact loading_sys_reachable|].
  exact (page_progress parse_url_model local_api loading_sys loading_sys_reachable).
Defined.

Lemma url_changed_only_by_input_or_reset_witness :
  step parse_url_model local_api (mkSys (mkAppState "  ftp://x " idle JNull "") []) EvSubmit
    (mkSys (mkAppState "  ftp://x " error JNull (scheme_msg "ftp:")) [])
  /\ (forall v, EvSubmit <> EvInput v) /\ EvSubmit <> EvReset
  /\ url (mkAppState "  ftp://x " error JNull (scheme_msg "ftp:"))
     = url (mkAppState "  ftp://x " idle JNull "").
Proof.
  assert (Hs : step parse_url_model local_api (mkSys (mkAppState "  ftp://x " idle JNull "") [])
                 EvSubmit (mkSys (mkAppState "  ftp://x " error JNull (scheme_msg "ftp:")) [])).
  { apply step_fn_sound; reflexivity. }
  assert (Hi : forall v, EvSubmit <> EvInput v) by discriminate.
  assert (Hr : EvSubmit <> EvReset) by discriminate.
  split; [exact Hs|]. split; [exact Hi|]. split; [exact Hr|].
  exact (url_changed_only_by_input_or_reset parse_url_model local_api _ _ _ Hs Hi Hr).
Defined.

(* ------------------------------------------------------------------ *)
(** ** The API base URL *)

Lemma api_base_match_other (c : ascii) (r v : string) :
  c <> "/"%char ->
  match String c r with String "/" r' => rev_str r' | _ => v end = v.
Proof.
  intros Hc.
  destruct c as [[] [] [] [] [] [] [] []]; try reflexivity; exfalso; apply Hc; reflexivity.
Qed.

(** X8: [API_BASE] is ['http://localhost:8000'] when [VITE_API_BASE] is unset;
    otherwise it is the configured value with one trailing slash removed,
    and the configured value itself when it does not end in a slash. *)
Theorem api_base_trailing_slash :
  API_BASE_of None = "http://localhost:8000"
  /\ (forall w, API_BASE_of (Some (w ++ "/")) = w)
  /\ (forall v, (forall w, v <> w ++ "/") -> API_BASE_of (Some v) = v).
Proof.
  split; [reflexivity|]. split.
  - intros w; simpl; rewrite rev_str_app; simpl; apply rev_str_involutive.
  - intros v Hv; simpl.
    destruct (rev_str v) as [|c r] eqn:Hr; [reflexivity|].
    destruct (ascii_dec c "/") as [->|Hc].
    + exfalso; apply (Hv (rev_str r)).
      rewrite <- (rev_str_involutive v), Hr; reflexivity.
    + apply api_base_match_other; exact Hc.
Qed.

Example api_base_two_slashes : API_BASE_of (Some "http://h//") = "http://h/".
Proof. reflexivity. Qed.

(* ------------------------------------------------------------------ *)
(** ** Letter case in platform detection *)

Fixpoint map_str (f : ascii -> ascii) (s : string) : string :=
  match s with
  | EmptyString => EmptyString
  | String c s' => String (f c) (map_str f s')
  end.

Definition to_lower (c : ascii) : ascii :=
  let n := nat_of_ascii c in
  if ((65 <=? n) && (n <=? 90))%nat then ascii_of_nat (n + 32) else c.

Lemma upper_str_map (s : string) : upper_str s = map_str to_upper s.
Proof. induction s as [|c s IH]; simpl; [reflexivity | rewrite IH; reflexivity]. Qed.

Lemma lower_str_map (s : string) : lower_str s = map_str to_lower s.
Proof. induction s as [|c s IH]; simpl; [reflexivity | rewrite IH; reflexivity]. Qed.

Lemma to_upper_idem (c : ascii) : to_upper (to_upper c) = to_upper c.
Proof. destruct c as [[] [] [] [] [] [] [] []]; reflexivity. Qed.

Lemma to_upper_lower (c : ascii) : to_upper (to_lower c) = to_upper c.
Proof. destruct c as [[] [] [] [] [] [] [] []]; reflexivity. Qed.

Section CaseFold.

Variable f : ascii -> ascii.
Hypothesis f_fold : forall c, to_upper (f c) = to_upper c.

Lemma re_match_fold (r : regex) : forall pos s k k',
  (forall p s', k p (map_str f s') = k' p s') ->
  re_match true r pos (map_str f s) k = re_match true r pos s k'.
Proof.
  induction r as [c | r1 IH1 r2 IH2 | r1 IH1 r2 IH2 | r1 IH1 |];
    intros pos s k k' Hk; simpl.
  - destruct s as [|c' s']; simpl; [reflexivity|].
    unfold char_eq; rewrite f_fold, Hk; reflexivity.
  - apply IH1; intros p s'; apply IH2; exact Hk.
  - rewrite (IH1 pos s k k' Hk), (IH2 pos s k k' Hk); reflexivity.
  - rewrite (IH1 pos s k k' Hk), Hk; reflexivity.
  - rewrite Hk; reflexivity.
Qed.

Lemma test_from_fold (r : regex) : forall s pos,
  test_from (mkRegExp r true) pos (map_str f s) = test_from (mkRegExp r true) pos s.
Proof.
  induction s as [|c s IH]; intros pos; [reflexivity|].
  change (map_str f (String c s)) with (String (f c) (map_str f s)).
  cbn [test_from re_source re_ignoreCase].
  change (String (f c) (map_str f s)) with (map_str f (String c s)).
  rewrite (re_match_fold r pos (String c s) (fun _ _ => true) (fun _ _ => true))
    by reflexivity.
  rewrite IH; reflexivity.
Qed.

Lemma find_platforms_fold (s : string) : forall ps,
  Forall (fun p => re_ignoreCase (pattern p) = true) ps ->
  find (fun p => test (pattern p) (map_str f s)) ps
  = find (fun p => test (pattern p) s) ps.
Proof.
  intros ps HF; induction HF as [|[n [r ic]] ps Hic _ IH]; [reflexivity|].
  simpl in Hic; subst ic; cbn [find]; rewrite IH.
  unfold test; cbn [pattern]; rewrite test_from_fold; reflexivity.
Qed.

Lemma detectPlatform_fold (s : string) : detectPlatform (map_str f s) = detectPlatform s.
Proof.
  unfold detectPlatform; rewrite find_platforms_fold; [reflexivity|].
  repeat constructor.
Qed.

End CaseFold.

(** X9: [detectPlatform] ignores the letter case of ASCII letters: upper-casing
    or lower-casing the input never changes the detected platform. *)
Theorem detect_case_insensitive (s : string) :
  detectPlatform (upper_str s) = detectPlatform s
  /\ detectPlatform (lower_str s) = detectPlatform s.
Proof.
  rewrite upper_str_map, lower_str_map; split.
  - apply detectPlatform_fold; exact to_upper_idem.
  - apply detectPlatform_fold; exact to_upper_lower.
Qed.

(* ------------------------------------------------------------------ *)
(** ** The Generic catch-all and undetected inputs *)

Definition opt_some {A} (o : option A) : bool :=
  match o with Some _ => true | None => false end.

(** [s] begins with [http://] or [https://] in some letter case. *)
Definition starts_http_ci (s : string) : Prop :=
  exists w rest, s = w ++ rest /\ (upper_str w = "HTTP://" \/ upper_str w = "HTTPS://").

(** [s] contains no signature of [SIGNATURES] in any letter case. *)
Definition no_signature (s : string) : Prop :=
  forall n sigs g, In (n, sigs) SIGNATURES -> In g sigs -> ~ contains_ci g s.

Lemma ci_prefix_app (ic : bool) (p1 p2 : string) : forall s,
  ci_prefix ic (p1 ++ p2) s
  = match ci_prefix ic p1 s with Some r => ci_prefix ic p2 r | None => None end.
Proof.
  induction p1 as [|c p1 IH]; intros s; [reflexivity|].
  destruct s as [|c' s']; [reflexivity|]; simpl.
  destruct (char_eq ic c c'); [apply IH | reflexivity].
Qed.

Lemma re_match_seq (ic : bool) (r1 r2 : regex) (pos : nat) (s : string) k :
  re_match ic (RSeq r1 r2) pos s k = re_match ic r1 pos s (fun p s' => re_match ic r2 p s' k).
Proof. reflexivity. Qed.

Lemma re_match_opt (ic : bool) (r : regex) (pos : nat) (s : string) k :
  re_match ic (ROpt r) pos s k = re_match ic r pos s k || k pos s.
Proof. reflexivity. Qed.

Lemma re_match_char (ic : bool) (c c' : ascii) (pos : nat) (s : string) k :
  re_match ic (RChar c) pos (String c' s) k = char_eq ic c c' && k (S pos) s.
Proof. reflexivity. Qed.

Lemma generic_late (s : string) : forall pos,
  test_from (pattern Generic_platform) (S pos) s = false.
Proof.
  induction s as [|c s IH]; intros pos; [reflexivity|].
  cbn [test_from]; rewrite IH; reflexivity.
Qed.

Lemma generic_test (s : string) :
  test (pattern Generic_platform) s
  = opt_some (ci_prefix true "http://" s) || opt_some (ci_prefix true "https://" s).
Proof.
  destruct s as [|c0 s0]; [reflexivity|]; unfold test.
  cbn [test_from]; rewrite generic_late, orb_false_r.
  change (re_match (re_ignoreCase (pattern Generic_platform))
            (re_source (pattern Generic_platform)) 0 (String c0 s0)
            (fun _ _ => true))
    with (re_match true (lit "http") 0 (String c0 s0)
            (fun p s' => re_match true (RSeq (ROpt (RChar "s")) (lit "://")) p s'
                           (fun _ _ => true))).
  change "http://" with ("http" ++ "://").
  change "https://" with ("http" ++ ("s" ++ "://")).
  rewrite re_match_lit by discriminate.
  rewrite !ci_prefix_app.
  destruct (ci_prefix true "http" (String c0 s0)) as [r|]; [|reflexivity].
  destruct r as [|c1 r1]; [reflexivity|].
  rewrite re_match_seq, re_match_opt, re_match_char; cbv beta.
  rewrite !re_match_lit by discriminate.
  rewrite ci_prefix_app.
  change (ci_prefix true "s" (String c1 r1)) with (if char_eq true "s" c1 then Some r1 else None).
  destruct (char_eq true "s" c1), (ci_prefix true "://" r1), (ci_prefix true "://" (String c1 r1));
    reflexivity.
Qed.

Lemma generic_test_iff (s : string) :
  test (pattern Generic_platform) s = true <-> starts_http_ci s.
Proof.
  rewrite generic_test, orb_true_iff; split.
  - intros [H | H].
    + destruct (ci_prefix true "http://" s) as [rest|] eqn:Hp; [|discriminate].
      apply ci_prefix_sound in Hp as [w [Hs Hw]]; exists w, rest; auto.
    + destruct (ci_prefix true "https://" s) as [rest|] eqn:Hp; [|discriminate].
      apply ci_prefix_sound in Hp as [w [Hs Hw]]; exists w, rest; auto.
  - intros [w [rest [-> [Hw | Hw]]]].
    + left; rewrite (ci_prefix_complete "http://" w rest Hw); reflexivity.
    + right; rewrite (ci_prefix_complete "https://" w rest Hw); reflexivity.
Qed.

Lemma forallb_no_signature (s : string) :
  forall ps sigs,
  Forall2 (fun p ns => name p = fst ns
                       /\ (test (pattern p) s = true
                           <-> exists g, In g (snd ns) /\ contains_ci g s)) ps sigs ->
  forallb (fun q => negb (test (pattern q) s)) ps = true ->
  forall n sigs' g, In (n, sigs') sigs -> In g sigs' -> ~ contains_ci g s.
Proof.
  intros ps sigs HF; induction HF as [|p [n0 sigs0] ps sigs [_ Hiff] _ IH];
    intros Hall n sigs' g Hin Hg Hc; [destruct Hin|].
  simpl in Hall; apply andb_true_iff in Hall as [Hp Hall].
  destruct Hin as [Heq | Hin].
  - inversion Heq; subst.
    assert (Ht : test (pattern p) s = true) by (apply Hiff; exists g; auto).
    rewrite Ht in Hp; discriminate.
  - exact (IH Hall n sigs' g Hin Hg Hc).
Qed.

Lemma no_signature_iff (s : string) :
  no_signature s
  <-> forallb (fun q => negb (test (pattern q) s)) (removelast PLATFORMS) = true.
Proof.
  split.
  - intros H; exact (forallb_not_earlier s _ _ (platforms_signatures s) H).
  - exact (forallb_no_signature s _ _ (platforms_signatures s)).
Qed.

Lemma find_app {A} (f : A -> bool) (l1 l2 : list A) :
  find f (l1 ++ l2) = match find f l1 with Some x => Some x | None => find f l2 end.
Proof.
  induction l1 as [|a l1 IH]; simpl; [reflexivity|].
  destruct (f a); [reflexivity | exact IH].
Qed.

Lemma find_none_forallb {A} (f : A -> bool) (l : list A) :
  find f l = None <-> forallb (fun x => negb (f x)) l = true.
Proof.
  induction l as [|a l IH]; simpl; [split; reflexivity|].
  destruct (f a); simpl; [split; discriminate | exact IH].
Qed.

Lemma find_platforms_split (f : Platform -> bool) :
  find f PLATFORMS
  = match find f (removelast PLATFORMS) with
    | Some x => Some x
    | None => if f Generic_platform then Some Generic_platform else None
    end.
Proof.
  change (find f PLATFORMS) with (find f (removelast PLATFORMS ++ [Generic_platform])%list).
  rewrite find_app; reflexivity.
Qed.

(** X10: the [Generic] name is given exactly to the inputs that contain no
    platform signature and begin, in any letter case, with [http://] or
    [https://]; [detectPlatform] returns nothing exactly for the inputs that
    contain no signature and begin with neither. *)
Theorem generic_and_none_detection (s : string) :
  (detectPlatform s = Some "Generic" <-> no_signature s /\ starts_http_ci s)
  /\ (detectPlatform s = None <-> no_signature s /\ ~ starts_http_ci s).
Proof.
  rewrite no_signature_iff, <- generic_test_iff, <- find_none_forallb.
  unfold detectPlatform; rewrite find_platforms_split.
  destruct (find (fun p => test (pattern p) s) (removelast PLATFORMS)) as [p|] eqn:Hf.
  - apply find_some in Hf as [Hin _].
    assert (Hn : name p <> "Generic").
    { simpl in Hin; repeat destruct Hin as [<- | Hin]; try discriminate; destruct Hin. }
    simpl; split; split.
    + intros H; inversion H; contradiction.
    + intros [H _]; discriminate.
    + intros H; discriminate.
    + intros [H _]; discriminate.
  - destruct (test (pattern Generic_platform) s); simpl; split; split.
    all: try (intros _; split; [reflexivity | try reflexivity; discriminate]).
    all: try (intros [_ H]; first [discriminate | exfalso; apply H; reflexivity]).
    all: try (intros H; discriminate).
    all: reflexivity.
Qed.
